(** * folder_to_carray.py: a verified model of the generator

    The script walks an input folder and writes two C artifacts,
    [<output_base>.c] (one byte array per file, then a lookup table) and
    [<output_base>.h] (the matching declarations).

    Python [str] values are held as [string] (their UTF-8 bytes) and
    [bytes] values as [list byte].  An open text stream is modelled by the
    list of the strings passed to its [write] method, in call order; the
    content of the file is their concatenation.  The functions of the
    Python library that the script calls ([os.walk], [os.path.isdir],
    [open], [mimetypes.guess_type], ...) are the fields of a [World]. *)

From Stdlib Require Import String Ascii List Arith PeanoNat Bool Lia.
From Stdlib Require Import DecimalString DecimalNat.
From Stdlib.Strings Require Import Byte.
Import ListNotations.
Local Open Scope list_scope.
Local Open Scope string_scope.

(** ** Characters and Python formatting primitives *)

Definition dquote : ascii := ascii_of_nat 34.
Definition bslash : ascii := ascii_of_nat 92.
Definition q : string := String dquote EmptyString.
Definition nl : string := String (ascii_of_nat 10) EmptyString.

(** [s.replace(old, new)] for one-character [old] and [new]. *)
Fixpoint replace (old new : ascii) (s : string) : string :=
  match s with
  | EmptyString => EmptyString
  | String c s' =>
      String (if Ascii.eqb c old then new else c) (replace old new s')
  end.

Definition hex_digit (n : nat) : ascii :=
  match String.get n "0123456789abcdef" with
  | Some c => c
  | None => "0"%char
  end.

(** [f"{b:02x}"] for a byte [b]. *)
Definition format_02x (b : byte) : string :=
  String (hex_digit (to_nat b / 16))
    (String (hex_digit (to_nat b mod 16)) EmptyString).

(** [f"{n}"] for a non-negative integer [n]. *)
Definition str_int (n : nat) : string :=
  NilZero.string_of_uint (Nat.to_uint n).

(** ** The world the script runs in *)

Record World := {
  (** [os.path.isdir] *)
  isdir : string -> bool;
  (** [os.walk(top)], forced to the list of its [(root, dirs, files)] *)
  walk : string -> list (string * list string * list string);
  (** [open(p, "rb").read()]; [None] when it raises *)
  read_bytes : string -> option (list byte);
  (** whether [open(p, "w")] succeeds *)
  open_w : string -> bool;
  (** first component of [mimetypes.guess_type] *)
  guess_type : string -> option string;
  (** [os.path.join] *)
  join : string -> string -> string;
  (** [os.path.relpath] *)
  relpath : string -> string -> string
}.

(** ** Output streams and the generation monad *)

Inductive handle := Fc | Fh.

Definition entry : Type := string * string * string.

Record State := {
  out_c : list string;
  out_h : list string;
  file_entries : list entry
}.

Definition init : State :=
  {| out_c := []; out_h := []; file_entries := [] |}.

Inductive exn := OSError (path : string).

Inductive result (A : Type) :=
| Ok (a : A)
| Raise (e : exn).
Arguments Ok {A} a.
Arguments Raise {A} e.

(** A computation may raise; what was written before stays written. *)
Definition M (A : Type) : Type := State -> result A * State.

Definition ret {A} (a : A) : M A := fun s => (Ok a, s).

Definition bind {A B} (m : M A) (k : A -> M B) : M B :=
  fun s =>
    match m s with
    | (Ok a, s') => k a s'
    | (Raise e, s') => (Raise e, s')
    end.

Definition raise {A} (e : exn) : M A := fun s => (Raise e, s).

Notation "x <- m ;; k" := (bind m (fun x => k))
  (at level 61, m at next level, right associativity).
Notation "m ;; k" := (bind m (fun _ => k))
  (at level 61, right associativity).

(** [ws] appended to the stream behind [h]. *)
Definition emit (h : handle) (ws : list string) (s : State) : State :=
  match h with
  | Fc => {| out_c := (out_c s ++ ws)%list; out_h := out_h s;
             file_entries := file_entries s |}
  | Fh => {| out_c := out_c s; out_h := (out_h s ++ ws)%list;
             file_entries := file_entries s |}
  end.

(** [f.write(text)] *)
Definition write (f : handle) (text : string) : M unit :=
  fun s => (Ok tt, emit f [text] s).

(** [file_entries.append(e)] *)
Definition append_entry (e : entry) : M unit :=
  fun s => (Ok tt, {| out_c := out_c s; out_h := out_h s;
                      file_entries := (file_entries s ++ [e])%list |}).

Definition get_entries : M (list entry) :=
  fun s => (Ok (file_entries s), s).

(** [for x in l: body(x)] *)
Fixpoint for_each {A} (l : list A) (body : A -> M unit) : M unit :=
  match l with
  | [] => ret tt
  | x :: l' => body x ;; for_each l' body
  end.

(** ** Helpers of the script *)

Definition to_c_identifier (path : string) : string :=
  replace "." "_"
    (replace "-" "_"
      (replace bslash "_"
        (replace "/" "_" path))).

Definition guess_mime_type (w : World) (file_path : string) : string :=
  match guess_type w file_path with
  | Some mime =>
      if String.eqb mime EmptyString then "application/octet-stream"
      else mime
  | None => "application/octet-stream"
  end.

(** The [for i, b in enumerate(data)] loop of [file_to_c_array], entered at
    index [i] with the local [line]; it returns the final [line]. *)
Fixpoint encode_loop (f_c : handle) (i : nat) (data : list byte)
    (line : string) : M string :=
  match data with
  | [] => ret line
  | b :: data' =>
      let line := line ++ String bslash "x" ++ format_02x b in
      if ((i + 1) mod 16 =? 0)%nat then
        write f_c (line ++ q ++ nl) ;;
        encode_loop f_c (S i) data' q
      else
        encode_loop f_c (S i) data' line
  end.

Definition file_to_c_array (w : World) (file_path array_name : string)
    (f_c : handle) : M unit :=
  match read_bytes w file_path with
  | None => raise (OSError file_path)
  | Some data =>
      write f_c ("// File: " ++ file_path ++ nl) ;;
      write f_c ("const unsigned char " ++ array_name ++ "[] = " ++ nl) ;;
      line <- encode_loop f_c 0 data q ;;
      (if negb (String.eqb line q) then write f_c (line ++ q ++ nl)
       else ret tt) ;;
      write f_c (";" ++ nl) ;;
      write f_c ("const unsigned int " ++ array_name ++ "_len = "
                 ++ str_int (length data) ++ ";" ++ nl ++ nl)
  end.

(** ** The generation pass *)

(** Body of the inner loop: one discovered file. *)
Definition convert_file (w : World) (input_folder root : string)
    (f_c f_h : handle) (file_name : string) : M unit :=
  let full_path := join w root file_name in
  let rel_path := replace bslash "/" (relpath w full_path input_folder) in
  let array_name := to_c_identifier rel_path in
  let mime_type := guess_mime_type w full_path in
  file_to_c_array w full_path array_name f_c ;;
  write f_h ("extern const unsigned char " ++ array_name ++ "[];" ++ nl) ;;
  write f_h ("extern const unsigned int " ++ array_name ++ "_len;" ++ nl) ;;
  append_entry (rel_path, array_name, mime_type).

(** Body of the table loop: one entry of [file_entries]. *)
Definition emit_entry (f_c : handle) (e : entry) : M unit :=
  let '(rel_path, array_name, mime_type) := e in
  write f_c ("    {" ++ q ++ "/" ++ rel_path ++ q ++ ", " ++ array_name
             ++ ", " ++ array_name ++ "_len, " ++ q ++ mime_type ++ q
             ++ "}," ++ nl) ;;
  if String.eqb rel_path "index.html" then
    write f_c ("    {" ++ q ++ "/" ++ q ++ ", " ++ array_name
               ++ ", " ++ array_name ++ "_len, " ++ q ++ mime_type ++ q
               ++ "}," ++ nl)
  else ret tt.

(** The block under [with open(c_file, "w") as f_c, open(h_file, "w") as f_h]. *)
Definition generate (w : World) (input_folder : string)
    (f_c f_h : handle) : M unit :=
  write f_h ("// Auto-generated header for embedded files" ++ nl ++ nl) ;;
  write f_h ("typedef struct {" ++ nl) ;;
  write f_h ("    const char *uri;" ++ nl) ;;
  write f_h ("    const unsigned char *data;" ++ nl) ;;
  write f_h ("    unsigned int length;" ++ nl) ;;
  write f_h ("    const char *content_type;" ++ nl) ;;
  write f_h ("} embedded_file_t;" ++ nl ++ nl) ;;
  write f_c ("// Auto-generated embedded files" ++ nl ++ nl) ;;
  write f_c ("#include " ++ q ++ "embedded_build.h" ++ q ++ nl ++ nl) ;;
  for_each (walk w input_folder)
    (fun '(root, _, files) =>
       for_each files (convert_file w input_folder root f_c f_h)) ;;
  write f_c ("embedded_file_t embedded_files[] = {" ++ nl) ;;
  entries <- get_entries ;;
  for_each entries (emit_entry f_c) ;;
  write f_c ("};" ++ nl ++ nl) ;;
  write f_c ("int embedded_files_count = sizeof(embedded_files) / sizeof(embedded_files[0]);" ++ nl) ;;
  write f_h (nl ++ "extern embedded_file_t embedded_files[];" ++ nl) ;;
  write f_h ("extern int embedded_files_count;" ++ nl).

(** ** The script *)

Inductive status :=
| Exit (code : nat)
| Uncaught (e : exn).

(** What a run leaves behind: the text printed, how the process ended and
    the files it opened for writing, each with the writes it received. *)
Record Outcome := {
  stdout : list string;
  exit_status : status;
  files : list (string * list string)
}.

(** The script run as [prog args...]: [sys.argv] is [prog :: args]. *)
Definition main (w : World) (prog : string) (args : list string) : Outcome :=
  let argv := prog :: args in
  if negb (length argv =? 3)%nat then
    {| stdout := ["Usage: " ++ nth 0 argv EmptyString
                  ++ " <input_folder> <output_base>" ++ nl];
       exit_status := Exit 1;
       files := [] |}
  else
    let input_folder := nth 1 argv EmptyString in
    let output_base := nth 2 argv EmptyString in
    let c_file := output_base ++ ".c" in
    let h_file := output_base ++ ".h" in
    if negb (isdir w input_folder) then
      {| stdout := ["Error: Folder '" ++ input_folder ++ "' not found" ++ nl];
         exit_status := Exit 1;
         files := [] |}
    else if negb (open_w w c_file) then
      {| stdout := []; exit_status := Uncaught (OSError c_file);
         files := [] |}
    else if negb (open_w w h_file) then
      {| stdout := []; exit_status := Uncaught (OSError h_file);
         files := [(c_file, [])] |}
    else
      match generate w input_folder Fc Fh init with
      | (Ok _, s) =>
          {| stdout := ["✅ Generated " ++ c_file ++ " and " ++ h_file ++ nl];
             exit_status := Exit 0;
             files := [(c_file, out_c s); (h_file, out_h s)] |}
      | (Raise e, s) =>
          {| stdout := []; exit_status := Uncaught e;
             files := [(c_file, out_c s); (h_file, out_h s)] |}
      end.

(** ** A concrete world for running the model *)

Module Demo.

(** [site/] holds [index.html], [style.css] and [js/app-1.js]. *)
Definition site_walk : list (string * list string * list string) :=
  [ ("site", ["js"], ["index.html"; "style.css"]);
    ("site/js", [], ["app-1.js"]) ].

Definition site_read (p : string) : option (list byte) :=
  if String.eqb p "site/index.html" then Some [x3c; x68; x31; x3e]
  else if String.eqb p "site/style.css" then Some []
  else if String.eqb p "site/js/app-1.js" then
    Some (repeat xff 17)
  else None.

Definition site_mime (p : string) : option string :=
  if String.eqb p "site/index.html" then Some "text/html"
  else if String.eqb p "site/style.css" then Some "text/css"
  else None.

(** POSIX [join]; [relpath] strips the [start/] prefix. *)
Definition posix_join (a b : string) : string := a ++ "/" ++ b.

Definition strip_prefix (p start : string) : string :=
  String.substring (String.length start + 1)
    (String.length p - (String.length start + 1)) p.

Definition site : World :=
  {| isdir := fun p => String.eqb p "site" || String.eqb p "empty";
     walk := fun p => if String.eqb p "site" then site_walk
                      else if String.eqb p "empty" then [("empty", [], [])]
                      else [];
     read_bytes := site_read;
     open_w := fun _ => true;
     guess_type := site_mime;
     join := posix_join;
     relpath := strip_prefix |}.

(** [site] seen from another run: the folder is the same, what lies
    outside it is not. *)
Definition site_later : World :=
  {| isdir := fun p => String.eqb p "site";
     walk := fun p => if String.eqb p "site" then site_walk else [];
     read_bytes := fun p => if String.eqb p "notes.txt" then Some [x41]
                            else site_read p;
     open_w := fun p => negb (String.eqb p "locked.c");
     guess_type := fun p => if String.eqb p "notes.txt" then Some "text/plain"
                            else site_mime p;
     join := posix_join;
     relpath := strip_prefix |}.

End Demo.

(** ** Reading the artifacts back *)

(** Content of a file that received the writes [ws]. *)
Definition content (ws : list string) : string :=
  fold_right String.append EmptyString ws.

Definition hex_value (c : ascii) : option nat :=
  let n := nat_of_ascii c in
  if (48 <=? n)%nat && (n <=? 57)%nat then Some (n - 48)
  else if (97 <=? n)%nat && (n <=? 102)%nat then Some (n - 87)
  else if (65 <=? n)%nat && (n <=? 70)%nat then Some (n - 55)
  else None.

Definition is_blank (c : ascii) : bool :=
  Ascii.eqb c " " || Ascii.eqb c (ascii_of_nat 10)
  || Ascii.eqb c (ascii_of_nat 9) || Ascii.eqb c (ascii_of_nat 13).

(** A C lexer for a run of adjacent string literals: it is outside a
    literal, inside one, just after a backslash, or in the digits of a
    hexadecimal escape, which extends as far as hex digits follow. *)
Inductive lexer :=
| Outside
| Inside
| Escape
| Hex (v : option nat).

(** The bytes a C compiler stores for the adjacent string literals in [s]
    (without the terminating zero); [None] when [s] is not such a run or an
    escape is out of range. *)
Fixpoint decode_from (st : lexer) (s : string) : option (list byte) :=
  match s with
  | EmptyString =>
      match st with
      | Outside => Some []
      | _ => None
      end
  | String c s' =>
      let inside :=
        if Ascii.eqb c dquote then decode_from Outside s'
        else if Ascii.eqb c bslash then decode_from Escape s'
        else option_map (cons (byte_of_ascii c)) (decode_from Inside s') in
      match st with
      | Outside =>
          if Ascii.eqb c dquote then decode_from Inside s'
          else if is_blank c then decode_from Outside s'
          else None
      | Inside => inside
      | Escape =>
          if Ascii.eqb c "x" then decode_from (Hex None) s' else None
      | Hex v =>
          match hex_value c, v with
          | Some d, None => decode_from (Hex (Some d)) s'
          | Some d, Some n => decode_from (Hex (Some (16 * n + d))) s'
          | None, Some n =>
              match of_nat n with
              | Some b => option_map (cons b) inside
              | None => None
              end
          | None, None => None
          end
      end
  end.

(** Number of line ends in [s]. *)
Fixpoint newlines (s : string) : nat :=
  match s with
  | EmptyString => 0
  | String c s' =>
      (if Ascii.eqb c (ascii_of_nat 10) then 1 else 0) + newlines s'
  end.

Definition decode (s : string) : option (list byte) :=
  decode_from Outside s.

(** Value of a C decimal constant. *)
Definition parse_int (s : string) : option nat :=
  option_map Nat.of_uint (NilZero.uint_of_string s).

(** Value C gives to [sizeof(a) / sizeof(a[0])] when [a] is an array
    initialised with [rows] elements of [elem_size] bytes each. *)
Definition sizeof_ratio (elem_size rows : nat) : nat :=
  (rows * elem_size) / elem_size.

(** ** The shape of the output *)

(** The escapes of a run of bytes, as they stand between two quotes. *)
Fixpoint escapes (seg : list byte) : string :=
  match seg with
  | [] => EmptyString
  | b :: seg' => String bslash "x" ++ format_02x b ++ escapes seg'
  end.

(** One quoted line of an array literal. *)
Definition segment (seg : list byte) : string :=
  q ++ escapes seg ++ q ++ nl.

(** [data] cut as the encoding loop cuts it, [pend] being the bytes already
    on the current line. *)
Fixpoint chunk16 (pend data : list byte) : list (list byte) :=
  match data with
  | [] =>
      match pend with
      | [] => []
      | _ => [pend]
      end
  | b :: data' =>
      let pend := (pend ++ [b])%list in
      if (length pend =? 16)%nat then pend :: chunk16 [] data'
      else chunk16 pend data'
  end.

(** The writes of [file_to_c_array] around the literal lines [lit]. *)
Definition array_def (file_path array_name : string) (lit : list string)
    (len : string) : list string :=
  ("// File: " ++ file_path ++ nl)
  :: ("const unsigned char " ++ array_name ++ "[] = " ++ nl)
  :: app lit
       [";" ++ nl;
        "const unsigned int " ++ array_name ++ "_len = " ++ len ++ ";" ++ nl ++ nl].

(** One row of the table. *)
Definition table_row (uri array_name mime_type : string) : string :=
  "    {" ++ q ++ uri ++ q ++ ", " ++ array_name ++ ", " ++ array_name
  ++ "_len, " ++ q ++ mime_type ++ q ++ "}," ++ nl.

(** The full paths of the files met by the walk, in order. *)
Definition discovered (w : World) (input_folder : string) : list string :=
  flat_map (fun '(root, _, files) => map (join w root) files)
    (walk w input_folder).

Definition rel_path_of (w : World) (input_folder full_path : string) : string :=
  replace bslash "/" (relpath w full_path input_folder).

Definition entry_of (w : World) (input_folder full_path : string) : entry :=
  let rel_path := rel_path_of w input_folder full_path in
  (rel_path, to_c_identifier rel_path, guess_mime_type w full_path).

Definition data_of (w : World) (full_path : string) : list byte :=
  match read_bytes w full_path with
  | Some data => data
  | None => []
  end.

(** What one discovered file adds to the definitions and to the
    declarations. *)
Definition file_c_writes (w : World) (input_folder full_path : string)
    : list string :=
  array_def full_path (to_c_identifier (rel_path_of w input_folder full_path))
    (map segment (chunk16 [] (data_of w full_path)))
    (str_int (length (data_of w full_path))).

Definition file_h_writes (w : World) (input_folder full_path : string)
    : list string :=
  let array_name := to_c_identifier (rel_path_of w input_folder full_path) in
  ["extern const unsigned char " ++ array_name ++ "[];" ++ nl;
   "extern const unsigned int " ++ array_name ++ "_len;" ++ nl].

(** The rows the table loop writes for one entry. *)
Definition rows_of (e : entry) : list string :=
  let '(rel_path, array_name, mime_type) := e in
  table_row ("/" ++ rel_path) array_name mime_type
  :: (if String.eqb rel_path "index.html"
      then [table_row "/" array_name mime_type] else []).

Definition c_prologue : list string :=
  ["// Auto-generated embedded files" ++ nl ++ nl;
   "#include " ++ q ++ "embedded_build.h" ++ q ++ nl ++ nl].

Definition table_open : string := "embedded_file_t embedded_files[] = {" ++ nl.

Definition c_epilogue : list string :=
  ["};" ++ nl ++ nl;
   "int embedded_files_count = sizeof(embedded_files) / sizeof(embedded_files[0]);" ++ nl].

Definition h_prologue : list string :=
  ["// Auto-generated header for embedded files" ++ nl ++ nl;
   "typedef struct {" ++ nl;
   "    const char *uri;" ++ nl;
   "    const unsigned char *data;" ++ nl;
   "    unsigned int length;" ++ nl;
   "    const char *content_type;" ++ nl;
   "} embedded_file_t;" ++ nl ++ nl].

Definition h_epilogue : list string :=
  [nl ++ "extern embedded_file_t embedded_files[];" ++ nl;
   "extern int embedded_files_count;" ++ nl].

(** [s] with [c], [h] and [es] appended to its three components. *)
Definition extend (s : State) (c h : list string) (es : list entry) : State :=
  {| out_c := out_c s ++ c; out_h := out_h s ++ h;
     file_entries := file_entries s ++ es |}%list.

(** The character [to_c_identifier] puts in the place of [c]. *)
Definition sanitized (c : ascii) : ascii :=
  if Ascii.eqb c "/" || Ascii.eqb c bslash || Ascii.eqb c "-" || Ascii.eqb c "."
  then "_"%char else c.

(** The writes a completed pass leaves in the definitions and in the
    declarations. *)
Definition c_writes (w : World) (input_folder : string) : list string :=
  (c_prologue
   ++ flat_map (file_c_writes w input_folder) (discovered w input_folder)
   ++ [table_open]
   ++ flat_map rows_of
        (map (entry_of w input_folder) (discovered w input_folder))
   ++ c_epilogue)%list.

Definition h_writes (w : World) (input_folder : string) : list string :=
  (h_prologue
   ++ flat_map (file_h_writes w input_folder) (discovered w input_folder)
   ++ h_epilogue)%list.

Definition success_message (output_base : string) : string :=
  "✅ Generated " ++ (output_base ++ ".c") ++ " and " ++ (output_base ++ ".h")
  ++ nl.

(** ** Further shapes *)

(** The body of the inner loop as a function of the joined path. *)
Definition convert_path (w : World) (input_folder : string)
    (f_c f_h : handle) (full_path : string) : M unit :=
  let rel_path := replace bslash "/" (relpath w full_path input_folder) in
  let array_name := to_c_identifier rel_path in
  let mime_type := guess_mime_type w full_path in
  file_to_c_array w full_path array_name f_c ;;
  write f_h ("extern const unsigned char " ++ array_name ++ "[];" ++ nl) ;;
  write f_h ("extern const unsigned int " ++ array_name ++ "_len;" ++ nl) ;;
  append_entry (rel_path, array_name, mime_type).

(** The characters [to_c_identifier] replaces. *)
Definition reserved (c : ascii) : bool :=
  Ascii.eqb c "/" || Ascii.eqb c bslash || Ascii.eqb c "-" || Ascii.eqb c ".".

(** The characters that [to_c_identifier] sends to [_]. *)
Definition collapses (c : ascii) : bool :=
  reserved c || Ascii.eqb c "_".

(** A digit or a letter from [a] to [f]. *)
Definition lower_hex (c : ascii) : bool :=
  let n := nat_of_ascii c in
  ((48 <=? n)%nat && (n <=? 57)%nat) || ((97 <=? n)%nat && (n <=? 102)%nat).

Module Locked.

(** [Demo.site] with [style.css] unreadable. *)
Definition site : World :=
  {| isdir := isdir Demo.site;
     walk := walk Demo.site;
     read_bytes := fun p => if String.eqb p "site/style.css" then None
                            else read_bytes Demo.site p;
     open_w := open_w Demo.site;
     guess_type := guess_type Demo.site;
     join := join Demo.site;
     relpath := relpath Demo.site |}.

End Locked.

(** ** The model on concrete inputs *)

Example to_c_identifier_nested :
  to_c_identifier "js/app-1.js" = "js_app_1_js".
Proof. reflexivity. Qed.

Example format_02x_pads : format_02x x0a = "0a" /\ format_02x xff = "ff".
Proof. split; reflexivity. Qed.

Example chunk16_of_33 :
  map (@length byte) (chunk16 [] (repeat x00 33)) = [16; 16; 1].
Proof. reflexivity. Qed.

Example site_table :
  flat_map rows_of (map (entry_of Demo.site "site") (discovered Demo.site "site"))
  = [table_row "/index.html" "index_html" "text/html";
     table_row "/" "index_html" "text/html";
     table_row "/style.css" "style_css" "text/css";
     table_row "/js/app-1.js" "js_app_1_js" "application/octet-stream"].
Proof. reflexivity. Qed.

Example unreadable_file_aborts :
  let w := {| isdir := isdir Demo.site; walk := walk Demo.site;
              read_bytes := fun _ => None; open_w := open_w Demo.site;
              guess_type := guess_type Demo.site; join := join Demo.site;
              relpath := relpath Demo.site |} in
  exit_status (main w "gen.py" ["site"; "out"])
  = Uncaught (OSError "site/index.html").
Proof. reflexivity. Qed.

(** ** Strings and states *)

Lemma append_assoc (a b c : string) : (a ++ b) ++ c = a ++ b ++ c.
Proof. induction a as [|x a IH]; simpl; [reflexivity | now rewrite IH]. Qed.

Lemma append_nil_r (a : string) : a ++ EmptyString = a.
Proof. induction a as [|x a IH]; simpl; [reflexivity | now rewrite IH]. Qed.

Lemma length_append (a b : string) :
  String.length (a ++ b) = String.length a + String.length b.
Proof. induction a as [|x a IH]; simpl; [reflexivity | now rewrite IH]. Qed.

Lemma content_app (xs ys : list string) :
  content (xs ++ ys) = content xs ++ content ys.
Proof.
  induction xs as [|x xs IH]; simpl; [reflexivity|].
  now rewrite IH, append_assoc.
Qed.

Lemma extend_nil (s : State) : extend s [] [] [] = s.
Proof. destruct s; unfold extend; simpl; now rewrite !app_nil_r. Qed.

Lemma extend_extend (s : State) c h es c' h' es' :
  extend (extend s c h es) c' h' es'
  = extend s (c ++ c') (h ++ h') (es ++ es').
Proof. unfold extend; simpl; now rewrite !app_assoc. Qed.

Lemma emit_Fc (ws : list string) (s : State) : emit Fc ws s = extend s ws [] [].
Proof. unfold emit, extend; now rewrite !app_nil_r. Qed.

Lemma emit_Fh (ws : list string) (s : State) : emit Fh ws s = extend s [] ws [].
Proof. unfold emit, extend; now rewrite !app_nil_r. Qed.

Lemma emit_nil (h : handle) (s : State) : emit h [] s = s.
Proof. destruct h, s; unfold emit; simpl; now rewrite app_nil_r. Qed.

Lemma emit_emit (h : handle) (xs ys : list string) (s : State) :
  emit h ys (emit h xs s) = emit h (xs ++ ys) s.
Proof. destruct h; unfold emit; simpl; now rewrite app_assoc. Qed.

(** ** The encoding loop *)

Lemma escapes_snoc (pend : list byte) (b : byte) :
  escapes (pend ++ [b]) = escapes pend ++ String bslash "x" ++ format_02x b.
Proof.
  induction pend as [|x pend IH]; simpl; [reflexivity|].
  now rewrite IH.
Qed.

Lemma length_escapes (seg : list byte) :
  String.length (escapes seg) = 4 * length seg.
Proof. induction seg as [|b seg IH]; simpl; [reflexivity | rewrite IH; lia]. Qed.

Lemma line_pending (pend : list byte) :
  String.eqb (q ++ escapes pend) q = true <-> pend = [].
Proof.
  rewrite String.eqb_eq. split.
  - intros H. apply (f_equal String.length) in H.
    rewrite length_append, length_escapes in H. simpl in H.
    destruct pend; [reflexivity | simpl in H; lia].
  - intros ->. reflexivity.
Qed.

Lemma wrap_here (i n : nat) :
  n = i mod 16 -> ((i + 1) mod 16 =? 0)%nat = (S n =? 16)%nat.
Proof.
  intros ->.
  pose proof (Nat.div_mod_eq i 16) as E.
  pose proof (Nat.mod_upper_bound i 16 ltac:(lia)) as B.
  destruct (Nat.eqb_spec (S (i mod 16)) 16) as [H|H].
  - apply Nat.eqb_eq.
    replace (i + 1) with (0 + (i / 16 + 1) * 16) by lia.
    now rewrite Nat.Div0.mod_add.
  - apply Nat.eqb_neq.
    replace (i + 1) with ((i mod 16 + 1) + (i / 16) * 16) by lia.
    rewrite Nat.Div0.mod_add, (Nat.mod_small (i mod 16 + 1)) by lia. lia.
Qed.

Lemma wrap_next (i n : nat) :
  n = i mod 16 -> S n <> 16 -> S n = S i mod 16.
Proof.
  intros -> H.
  pose proof (Nat.div_mod_eq i 16) as E.
  pose proof (Nat.mod_upper_bound i 16 ltac:(lia)) as B.
  replace (S i) with ((i mod 16 + 1) + (i / 16) * 16) by lia.
  rewrite Nat.Div0.mod_add, (Nat.mod_small (i mod 16 + 1)) by lia. lia.
Qed.

Lemma wrap_zero (i n : nat) : n = i mod 16 -> S n = 16 -> 0 = S i mod 16.
Proof.
  intros -> H.
  pose proof (Nat.div_mod_eq i 16) as E.
  replace (S i) with (0 + (i / 16 + 1) * 16) by lia.
  now rewrite Nat.Div0.mod_add.
Qed.

(** The loop and the flush after it write one line per chunk. *)
Lemma encode_loop_flush (f_c : handle) (data : list byte) :
  forall (i : nat) (pend : list byte) (s : State),
    length pend = i mod 16 ->
    (line <- encode_loop f_c i data (q ++ escapes pend) ;;
     if negb (String.eqb line q) then write f_c (line ++ q ++ nl) else ret tt) s
    = (Ok tt, emit f_c (map segment (chunk16 pend data)) s).
Proof.
  induction data as [|b data IH]; intros i pend s Hlen.
  - cbn [encode_loop chunk16]. unfold bind, ret.
    destruct (String.eqb (q ++ escapes pend) q) eqn:E; cbn [negb].
    + apply line_pending in E. subst pend. cbn [map].
      now rewrite emit_nil.
    + destruct pend as [|x pend]; [discriminate E|].
      unfold write, segment. cbn [map]. now rewrite append_assoc.
  - cbn [encode_loop chunk16].
    rewrite (wrap_here i (length pend)) by exact Hlen.
    rewrite (append_assoc q (escapes pend)), <- escapes_snoc.
    replace (S (length pend)) with (length (pend ++ [b]))
      by (rewrite length_app; simpl; lia).
    destruct (Nat.eqb_spec (length (pend ++ [b])) 16) as [H|H].
    + unfold bind at 1. unfold bind at 1. unfold write at 1. cbv beta iota.
      specialize (IH (S i) [] (emit f_c [(q ++ escapes (pend ++ [b])) ++ q ++ nl] s)).
      unfold bind in IH. cbn [escapes] in IH.
      change (q ++ EmptyString) with q in IH.
      unfold bind.
      rewrite IH.
      * rewrite emit_emit. cbn [map app]. unfold segment at 2.
        now rewrite append_assoc.
      * cbn [length]. apply (wrap_zero i (length pend)); [exact Hlen|].
        rewrite length_app in H. simpl in H. lia.
    + apply IH.
      rewrite length_app. simpl.
      rewrite Nat.add_1_r. apply wrap_next; [exact Hlen|].
      rewrite length_app in H. simpl in H. lia.
Qed.

Lemma bind_assoc {A B C} (m : M A) (f : A -> M B) (g : B -> M C) (s : State) :
  bind (bind m f) g s = bind m (fun x => bind (f x) g) s.
Proof. unfold bind. now destruct (m s) as [[a|e] s']. Qed.

Lemma bind_write {A} (f : handle) (text : string) (k : unit -> M A) (s : State) :
  bind (write f text) k s = k tt (emit f [text] s).
Proof. reflexivity. Qed.

Lemma file_to_c_array_ok (w : World) (file_path array_name : string)
    (f_c : handle) (data : list byte) (s : State) :
  read_bytes w file_path = Some data ->
  file_to_c_array w file_path array_name f_c s
  = (Ok tt, emit f_c (array_def file_path array_name
                        (map segment (chunk16 [] data))
                        (str_int (length data))) s).
Proof.
  intros Hread. unfold file_to_c_array. rewrite Hread.
  rewrite !bind_write, <- bind_assoc.
  unfold bind at 1.
  rewrite (encode_loop_flush f_c data 0 [] _ eq_refl).
  rewrite bind_write. unfold write.
  rewrite !emit_emit. reflexivity.
Qed.

Lemma file_to_c_array_fails (w : World) (file_path array_name : string)
    (f_c : handle) (s : State) :
  read_bytes w file_path = None ->
  file_to_c_array w file_path array_name f_c s = (Raise (OSError file_path), s).
Proof. intros Hread. unfold file_to_c_array. now rewrite Hread. Qed.

(** ** The chunks *)

Lemma concat_chunk16 (data : list byte) :
  forall pend, concat (chunk16 pend data) = (pend ++ data)%list.
Proof.
  induction data as [|b data IH]; intros pend; cbn [chunk16].
  - destruct pend; simpl; [reflexivity | now rewrite !app_nil_r].
  - destruct (length (pend ++ [b]) =? 16)%nat; cbn [concat]; rewrite IH;
      now rewrite <- app_assoc.
Qed.

Lemma chunk16_bounds (data : list byte) :
  forall pend seg,
    length pend < 16 -> In seg (chunk16 pend data) -> 1 <= length seg <= 16.
Proof.
  induction data as [|b data IH]; intros pend seg Hp; cbn [chunk16].
  - destruct pend as [|x pend]; [intros []|].
    intros [<-|[]]. simpl in *. lia.
  - destruct (Nat.eqb_spec (length (pend ++ [b])) 16) as [H|H].
    + intros [<-|Hin]; [lia|].
      apply (IH [] seg); [simpl; lia | exact Hin].
    + apply IH. rewrite length_app in *. simpl in *. lia.
Qed.

Lemma chunk16_full (data : list byte) :
  forall pend k,
    S k < length (chunk16 pend data) ->
    length (nth k (chunk16 pend data) []) = 16.
Proof.
  induction data as [|b data IH]; intros pend k; cbn [chunk16].
  - destruct pend; simpl; lia.
  - destruct (Nat.eqb_spec (length (pend ++ [b])) 16) as [H|H].
    + destruct k as [|k]; [intros _; exact H|].
      cbn [length nth]. intros Hk. apply IH. lia.
    + apply IH.
Qed.

Lemma chunk16_nil_inv (data : list byte) : chunk16 [] data = [] -> data = [].
Proof.
  intros H. pose proof (concat_chunk16 data []) as C.
  rewrite H in C. simpl in C. now symmetry.
Qed.

(** ** Decoding what was encoded *)

Lemma hex_value_digit (n : nat) : n < 16 -> hex_value (hex_digit n) = Some n.
Proof.
  intros H.
  do 16 (destruct n as [|n]; [reflexivity|]). lia.
Qed.

Lemma decode_escape (b : byte) (rest : string) :
  decode_from Inside (String bslash "x" ++ format_02x b ++ rest)
  = decode_from (Hex (Some (to_nat b))) rest.
Proof.
  pose proof (to_nat_bounded b) as B.
  pose proof (Nat.div_mod_eq (to_nat b) 16) as E.
  pose proof (Nat.mod_upper_bound (to_nat b) 16 ltac:(lia)) as Hm.
  assert (Hd : to_nat b / 16 < 16) by (apply Nat.Div0.div_lt_upper_bound; lia).
  unfold format_02x.
  cbn [String.append decode_from].
  change (Ascii.eqb bslash dquote) with false.
  change (Ascii.eqb bslash bslash) with true.
  change (Ascii.eqb "x" "x") with true. cbv iota.
  rewrite (hex_value_digit _ Hd), (hex_value_digit _ Hm).
  now rewrite <- E.
Qed.

Lemma decode_flush (b : byte) (c : ascii) (rest : string) :
  hex_value c = None ->
  decode_from (Hex (Some (to_nat b))) (String c rest)
  = option_map (cons b) (decode_from Inside (String c rest)).
Proof.
  intros H. cbn [decode_from]. now rewrite H, of_to_nat.
Qed.

Lemma decode_escapes (seg : list byte) (rest : string) :
  decode_from Inside (escapes seg ++ q ++ rest)
  = option_map (app seg) (decode_from Outside rest).
Proof.
  induction seg as [|b seg IH].
  - cbn [escapes String.append q decode_from].
    rewrite Ascii.eqb_refl. now destruct (decode_from Outside rest).
  - cbn [escapes]. rewrite !append_assoc, decode_escape.
    assert (F : decode_from (Hex (Some (to_nat b))) (escapes seg ++ q ++ rest)
                = option_map (cons b)
                    (decode_from Inside (escapes seg ++ q ++ rest))).
    { destruct seg as [|b' seg]; cbn [escapes String.append q];
        now apply decode_flush. }
    rewrite F, IH. now destruct (decode_from Outside rest).
Qed.

Lemma decode_segment (seg : list byte) (rest : string) :
  decode_from Outside (segment seg ++ rest)
  = option_map (app seg) (decode_from Outside rest).
Proof.
  unfold segment. rewrite !append_assoc.
  change (decode_from Outside (q ++ escapes seg ++ q ++ nl ++ rest))
    with (decode_from Inside (escapes seg ++ q ++ nl ++ rest)).
  now rewrite decode_escapes.
Qed.

Lemma decode_segments (segs : list (list byte)) :
  decode (content (map segment segs)) = Some (concat segs).
Proof.
  unfold decode. induction segs as [|seg segs IH]; [reflexivity|].
  cbn [map content fold_right concat].
  rewrite decode_segment. fold (content (map segment segs)).
  now rewrite IH.
Qed.

Lemma to_uint_not_nil (n : nat) : Nat.to_uint n <> Decimal.Nil.
Proof.
  rewrite <- (Unsigned.of_to n) at 1. rewrite Unsigned.to_of.
  generalize (Nat.to_uint n). intros d.
  induction d; simpl; try discriminate. exact IHd.
Qed.

Lemma parse_str_int (n : nat) : parse_int (str_int n) = Some n.
Proof.
  unfold parse_int, str_int.
  rewrite NilZero.usu by apply to_uint_not_nil.
  simpl. now rewrite Unsigned.of_to.
Qed.

Lemma newlines_append (a b : string) :
  newlines (a ++ b) = newlines a + newlines b.
Proof.
  induction a as [|c a IH]; [reflexivity|].
  cbn [String.append newlines]. rewrite IH. lia.
Qed.

Lemma newlines_format_02x (b : byte) : newlines (format_02x b) = 0.
Proof. destruct b; reflexivity. Qed.

Lemma newlines_escapes (seg : list byte) : newlines (escapes seg) = 0.
Proof.
  induction seg as [|b seg IH]; [reflexivity|].
  cbn [escapes]. rewrite !newlines_append, newlines_format_02x, IH.
  reflexivity.
Qed.

Lemma newlines_segment (seg : list byte) : newlines (segment seg) = 1.
Proof.
  unfold segment. rewrite !newlines_append, newlines_escapes. reflexivity.
Qed.

Lemma length_segment (seg : list byte) :
  String.length (segment seg) = 4 * length seg + 3.
Proof.
  unfold segment. rewrite !length_append, length_escapes. simpl. lia.
Qed.

(** ** The loops of the generation pass *)

Ltac state_eq :=
  unfold emit, extend, append_entry;
  cbn [out_c out_h file_entries];
  rewrite ?app_nil_r, <- ?app_assoc; reflexivity.

Lemma for_each_extend {A} (l : list A) (body : A -> M unit)
    (C H : A -> list string) (E : A -> list entry) :
  (forall x, In x l ->
     forall s, body x s = (Ok tt, extend s (C x) (H x) (E x))) ->
  forall s, for_each l body s
            = (Ok tt, extend s (flat_map C l) (flat_map H l) (flat_map E l)).
Proof.
  induction l as [|x l IH]; intros Hb s; cbn [for_each flat_map].
  - unfold ret. now rewrite extend_nil.
  - unfold bind. rewrite (Hb x (or_introl eq_refl)).
    rewrite IH by (intros y Hy; apply Hb; now right).
    now rewrite extend_extend.
Qed.

Lemma for_each_ext {A} (l : list A) (f g : A -> M unit) :
  (forall x, In x l -> forall s, f x s = g x s) ->
  forall s, for_each l f s = for_each l g s.
Proof.
  induction l as [|x l IH]; intros Hfg s; cbn [for_each]; [reflexivity|].
  unfold bind. rewrite (Hfg x (or_introl eq_refl)).
  destruct (g x s) as [[[]|e] s']; [|reflexivity].
  apply IH. intros y Hy. apply Hfg. now right.
Qed.

Lemma flat_map_map {A B C} (g : A -> B) (f : B -> list C) (l : list A) :
  flat_map f (map g l) = flat_map (fun x => f (g x)) l.
Proof. induction l as [|x l IH]; simpl; [reflexivity | now rewrite IH]. Qed.

Lemma flat_map_flat_map {A B C} (g : A -> list B) (f : B -> list C)
    (l : list A) :
  flat_map f (flat_map g l) = flat_map (fun x => flat_map f (g x)) l.
Proof.
  induction l as [|x l IH]; simpl; [reflexivity|].
  now rewrite flat_map_app, IH.
Qed.

Lemma flat_map_singleton {A B} (f : A -> B) (l : list A) :
  flat_map (fun x => [f x]) l = map f l.
Proof. induction l as [|x l IH]; simpl; [reflexivity | now rewrite IH]. Qed.

Lemma data_of_read (w : World) (p : string) :
  read_bytes w p <> None -> read_bytes w p = Some (data_of w p).
Proof. unfold data_of. destruct (read_bytes w p); [reflexivity | congruence]. Qed.

Lemma convert_file_ok (w : World) (input_folder root file_name : string)
    (s : State) :
  read_bytes w (join w root file_name) <> None ->
  convert_file w input_folder root Fc Fh file_name s
  = (Ok tt, extend s (file_c_writes w input_folder (join w root file_name))
                     (file_h_writes w input_folder (join w root file_name))
                     [entry_of w input_folder (join w root file_name)]).
Proof.
  intros Hread. apply data_of_read in Hread.
  unfold convert_file. unfold bind at 1.
  rewrite (file_to_c_array_ok _ _ _ _ _ _ Hread).
  rewrite !bind_write.
  unfold file_c_writes, file_h_writes, entry_of, rel_path_of.
  state_eq.
Qed.

Lemma emit_entry_rows (f_c : handle) (e : entry) (s : State) :
  emit_entry f_c e s = (Ok tt, emit f_c (rows_of e) s).
Proof.
  destruct e as [[rel_path array_name] mime_type].
  unfold emit_entry, rows_of. rewrite bind_write.
  destruct (String.eqb rel_path "index.html").
  - unfold write. now rewrite emit_emit.
  - reflexivity.
Qed.

Lemma walk_loop_ok (w : World) (input_folder : string) (s : State) :
  (forall p, In p (discovered w input_folder) -> read_bytes w p <> None) ->
  for_each (walk w input_folder)
    (fun '(root, _, files) =>
       for_each files (convert_file w input_folder root Fc Fh)) s
  = (Ok tt, extend s
              (flat_map (file_c_writes w input_folder) (discovered w input_folder))
              (flat_map (file_h_writes w input_folder) (discovered w input_folder))
              (map (entry_of w input_folder) (discovered w input_folder))).
Proof.
  intros Hread.
  rewrite <- (flat_map_singleton (entry_of w input_folder)).
  unfold discovered in *. rewrite !flat_map_flat_map.
  apply for_each_extend.
  intros [[root dirs] files] Hin s'.
  rewrite !flat_map_map.
  apply for_each_extend.
  intros file_name Hf s''. apply convert_file_ok.
  apply Hread. apply in_flat_map.
  exists (root, dirs, files). split; [exact Hin|].
  now apply in_map.
Qed.

Lemma flat_map_nil {A B} (l : list A) : flat_map (fun _ : A => @nil B) l = [].
Proof. induction l as [|x l IH]; simpl; [reflexivity | exact IH]. Qed.

Lemma generate_ok (w : World) (input_folder : string) :
  (forall p, In p (discovered w input_folder) -> read_bytes w p <> None) ->
  generate w input_folder Fc Fh init
  = (Ok tt, {| out_c := c_writes w input_folder;
               out_h := h_writes w input_folder;
               file_entries := map (entry_of w input_folder)
                                 (discovered w input_folder) |}).
Proof.
  intros Hread. unfold generate.
  rewrite !bind_write. unfold bind at 1.
  rewrite (walk_loop_ok w input_folder _ Hread).
  rewrite bind_write. unfold bind at 1. unfold get_entries at 1.
  cbv beta iota. unfold bind at 1.
  rewrite !emit_Fc, !emit_Fh, !extend_extend.
  rewrite (for_each_extend _ _ rows_of (fun _ => []) (fun _ => [])).
  - rewrite !bind_write. unfold write.
    rewrite !emit_Fc, !emit_Fh, !extend_extend.
    unfold extend, init. cbn [out_c out_h file_entries app].
    rewrite !flat_map_nil, ?app_nil_r.
    unfold c_writes, h_writes, c_prologue, h_prologue, c_epilogue,
      h_epilogue, table_open.
    cbn [app]. rewrite <- ?app_assoc. reflexivity.
  - intros e _ s. rewrite emit_entry_rows, emit_Fc. reflexivity.
Qed.

(** ** Whole runs *)

Lemma main_ok (w : World) (prog input_folder output_base : string) :
  isdir w input_folder = true ->
  open_w w (output_base ++ ".c") = true ->
  open_w w (output_base ++ ".h") = true ->
  (forall p, In p (discovered w input_folder) -> read_bytes w p <> None) ->
  main w prog [input_folder; output_base]
  = {| stdout := [success_message output_base];
       exit_status := Exit 0;
       files := [(output_base ++ ".c", c_writes w input_folder);
                 (output_base ++ ".h", h_writes w input_folder)] |}.
Proof.
  intros Hdir Hc Hh Hread. unfold main.
  cbn [length Nat.eqb negb nth].
  rewrite Hdir, Hc, Hh. cbn [negb].
  now rewrite (generate_ok w input_folder Hread).
Qed.

Lemma length_rows_of (e : entry) :
  length (rows_of e)
  = 1 + (if String.eqb (fst (fst e)) "index.html" then 1 else 0).
Proof.
  destruct e as [[rel_path array_name] mime_type]. unfold rows_of.
  cbn [fst]. now destruct (String.eqb rel_path "index.html").
Qed.

Lemma length_table (w : World) (input_folder : string) (l : list string) :
  length (flat_map rows_of (map (entry_of w input_folder) l))
  = length l
    + count_occ string_dec (map (rel_path_of w input_folder) l) "index.html".
Proof.
  induction l as [|p l IH]; [reflexivity|].
  cbn [map flat_map]. rewrite length_app, IH, length_rows_of.
  unfold entry_of at 1. cbn [fst length count_occ].
  destruct (String.eqb_spec (rel_path_of w input_folder p) "index.html") as [E|E];
    destruct (string_dec (rel_path_of w input_folder p) "index.html");
    try contradiction; lia.
Qed.

Lemma sizeof_ratio_rows (elem_size rows : nat) :
  0 < elem_size -> sizeof_ratio elem_size rows = rows.
Proof. intros H. unfold sizeof_ratio. apply Nat.div_mul. lia. Qed.

Lemma discovered_no_files (w : World) (input_folder : string) :
  (forall root dirs files,
     In (root, dirs, files) (walk w input_folder) -> files = []) ->
  discovered w input_folder = [].
Proof.
  unfold discovered. induction (walk w input_folder) as [|[[root dirs] files] l IH];
    intros H; [reflexivity|].
  cbn [flat_map]. rewrite (H root dirs files (or_introl eq_refl)).
  cbn [map app]. apply IH. intros r d f Hin. apply (H r d f). now right.
Qed.

Lemma get_replace (old new : ascii) (s : string) (n : nat) :
  String.get n (replace old new s)
  = option_map (fun c => if Ascii.eqb c old then new else c) (String.get n s).
Proof.
  revert n. induction s as [|c s IH]; intros n; [reflexivity|].
  destruct n as [|n]; cbn [replace String.get]; [reflexivity | apply IH].
Qed.

Lemma length_replace (old new : ascii) (s : string) :
  String.length (replace old new s) = String.length s.
Proof. induction s as [|c s IH]; simpl; [reflexivity | now rewrite IH]. Qed.

Lemma sanitize_steps (c : ascii) :
  (let c1 := if Ascii.eqb c "/" then "_"%char else c in
   let c2 := if Ascii.eqb c1 bslash then "_"%char else c1 in
   let c3 := if Ascii.eqb c2 "-" then "_"%char else c2 in
   if Ascii.eqb c3 "." then "_"%char else c3) = sanitized c.
Proof.
  unfold sanitized. cbv zeta.
  destruct (Ascii.eqb_spec c "/") as [->|H1]; [reflexivity|].
  destruct (Ascii.eqb_spec c bslash) as [->|H2]; [reflexivity|].
  destruct (Ascii.eqb_spec c "-") as [->|H3]; [reflexivity|].
  reflexivity.
Qed.

Lemma sanitized_clean (c : ascii) :
  sanitized c <> "/"%char /\ sanitized c <> bslash
  /\ sanitized c <> "-"%char /\ sanitized c <> "."%char.
Proof.
  unfold sanitized.
  destruct (Ascii.eqb_spec c "/") as [->|H1];
    [cbn [orb]; repeat split; discriminate|].
  destruct (Ascii.eqb_spec c bslash) as [->|H2];
    [cbn [orb]; repeat split; discriminate|].
  destruct (Ascii.eqb_spec c "-") as [->|H3];
    [cbn [orb]; repeat split; discriminate|].
  destruct (Ascii.eqb_spec c ".") as [->|H4];
    [cbn [orb]; repeat split; discriminate|].
  cbn [orb]. repeat split; assumption.
Qed.

Lemma get_to_c_identifier (path : string) (n : nat) :
  String.get n (to_c_identifier path) = option_map sanitized (String.get n path).
Proof.
  unfold to_c_identifier. rewrite !get_replace.
  destruct (String.get n path) as [c|]; [|reflexivity].
  cbn [option_map]. f_equal. apply sanitize_steps.
Qed.

Lemma convert_file_agree (w1 w2 : World) (input_folder root file_name : string)
    (s : State) :
  join w1 root file_name = join w2 root file_name ->
  read_bytes w1 (join w1 root file_name) = read_bytes w2 (join w1 root file_name) ->
  guess_type w1 (join w1 root file_name) = guess_type w2 (join w1 root file_name) ->
  relpath w1 (join w1 root file_name) input_folder
  = relpath w2 (join w1 root file_name) input_folder ->
  convert_file w1 input_folder root Fc Fh file_name s
  = convert_file w2 input_folder root Fc Fh file_name s.
Proof.
  intros Hj Hr Hg Hp.
  unfold convert_file, file_to_c_array, guess_mime_type.
  now rewrite <- Hj, <- Hr, <- Hg, <- Hp.
Qed.

Lemma generate_agree (w1 w2 : World) (input_folder : string) :
  walk w1 input_folder = walk w2 input_folder ->
  (forall root dirs files file_name,
     In (root, dirs, files) (walk w1 input_folder) -> In file_name files ->
     join w1 root file_name = join w2 root file_name
     /\ read_bytes w1 (join w1 root file_name)
        = read_bytes w2 (join w1 root file_name)
     /\ guess_type w1 (join w1 root file_name)
        = guess_type w2 (join w1 root file_name)
     /\ relpath w1 (join w1 root file_name) input_folder
        = relpath w2 (join w1 root file_name) input_folder) ->
  generate w1 input_folder Fc Fh init = generate w2 input_folder Fc Fh init.
Proof.
  intros Hwalk Hfiles. unfold generate.
  rewrite !bind_write. unfold bind at 1. unfold bind at 2.
  rewrite <- Hwalk.
  rewrite (for_each_ext (walk w1 input_folder) _
             (fun '(root, _, files) =>
                for_each files (convert_file w2 input_folder root Fc Fh))).
  - reflexivity.
  - intros [[root dirs] files] Hin s.
    apply for_each_ext. intros file_name Hf s'.
    destruct (Hfiles root dirs files file_name Hin Hf) as (Hj & Hr & Hg & Hp).
    now apply convert_file_agree.
Qed.

(** ** The claims *)

(** C1: the literal written for a file decodes, as a C compiler reads it,
    to the bytes of the file, and the [_len] constant is the decimal
    writing of the number of those bytes. *)
Theorem hex_literal_round_trip (w : World) (file_path array_name : string)
    (f_c : handle) (data : list byte) (s : State) :
  read_bytes w file_path = Some data ->
  exists (lit : list string) (len : string),
    file_to_c_array w file_path array_name f_c s
    = (Ok tt, emit f_c (array_def file_path array_name lit len) s)
    /\ decode (content lit) = Some data
    /\ parse_int len = Some (length data).
Proof.
  intros Hread.
  exists (map segment (chunk16 [] data)), (str_int (length data)).
  split; [now apply file_to_c_array_ok|]. split.
  - now rewrite decode_segments, concat_chunk16.
  - apply parse_str_int.
Qed.

Lemma hex_literal_round_trip_witness :
  exists (lit : list string) (len : string),
    file_to_c_array Demo.site "site/js/app-1.js" "js_app_1_js" Fc init
    = (Ok tt, emit Fc (array_def "site/js/app-1.js" "js_app_1_js" lit len) init)
    /\ decode (content lit) = Some (repeat xff 17)
    /\ parse_int len = Some (length (repeat xff 17)).
Proof.
  exact (hex_literal_round_trip Demo.site "site/js/app-1.js" "js_app_1_js"
           Fc (repeat xff 17) init eq_refl).
Defined.

(** C2: in a completed run, whatever the folder holds, the table has one
    row per discovered file plus one per file whose relative path is
    [index.html], and the count expression written after it, taken over an
    array of that many rows, has that value. *)
Theorem table_row_count (w : World) (prog input_folder output_base : string)
    (elem_size : nat) :
  isdir w input_folder = true ->
  open_w w (output_base ++ ".c") = true ->
  open_w w (output_base ++ ".h") = true ->
  (forall p, In p (discovered w input_folder) -> read_bytes w p <> None) ->
  0 < elem_size ->
  exists rows : list string,
    main w prog [input_folder; output_base]
    = {| stdout := [success_message output_base];
         exit_status := Exit 0;
         files :=
           [(output_base ++ ".c",
             (c_prologue
              ++ flat_map (file_c_writes w input_folder)
                   (discovered w input_folder)
              ++ [table_open] ++ rows ++ c_epilogue)%list);
            (output_base ++ ".h", h_writes w input_folder)] |}
    /\ rows = flat_map rows_of
                (map (entry_of w input_folder) (discovered w input_folder))
    /\ length rows
       = length (discovered w input_folder)
         + count_occ string_dec
             (map (rel_path_of w input_folder) (discovered w input_folder))
             "index.html"
    /\ sizeof_ratio elem_size (length rows) = length rows.
Proof.
  intros Hdir Hc Hh Hread Hsize.
  eexists. split; [|split; [reflexivity|split]].
  - now apply main_ok.
  - apply length_table.
  - now apply sizeof_ratio_rows.
Qed.

Lemma site_readable (p : string) :
  In p (discovered Demo.site "site") -> read_bytes Demo.site p <> None.
Proof.
  intros [<-|[<-|[<-|[]]]]; discriminate.
Defined.

Lemma table_row_count_witness :
  exists rows : list string,
    main Demo.site "gen.py" ["site"; "out"]
    = {| stdout := [success_message "out"];
         exit_status := Exit 0;
         files :=
           [("out.c",
             (c_prologue
              ++ flat_map (file_c_writes Demo.site "site")
                   (discovered Demo.site "site")
              ++ [table_open] ++ rows ++ c_epilogue)%list);
            ("out.h", h_writes Demo.site "site")] |}
    /\ rows = flat_map rows_of
                (map (entry_of Demo.site "site") (discovered Demo.site "site"))
    /\ length rows
       = length (discovered Demo.site "site")
         + count_occ string_dec
             (map (rel_path_of Demo.site "site") (discovered Demo.site "site"))
             "index.html"
    /\ sizeof_ratio 16 (length rows) = length rows.
Proof.
  apply (table_row_count Demo.site "gen.py" "site" "out" 16);
    try reflexivity.
  - exact site_readable.
  - exact (Nat.lt_0_succ 15).
Defined.

(** C3: in a completed run the table is, file by file in discovery order,
    the row of the file followed by a row of path [/] exactly when the
    relative path of the file is [index.html]; that second row names the
    same array, the same length constant and the same content type. *)
Theorem alias_row_iff_index_html (w : World)
    (prog input_folder output_base : string) :
  isdir w input_folder = true ->
  open_w w (output_base ++ ".c") = true ->
  open_w w (output_base ++ ".h") = true ->
  (forall p, In p (discovered w input_folder) -> read_bytes w p <> None) ->
  files (main w prog [input_folder; output_base])
  = [(output_base ++ ".c",
      (c_prologue
       ++ flat_map (file_c_writes w input_folder) (discovered w input_folder)
       ++ [table_open]
       ++ flat_map (fun p => rows_of (entry_of w input_folder p))
            (discovered w input_folder)
       ++ c_epilogue)%list);
     (output_base ++ ".h", h_writes w input_folder)]
  /\ forall p : string,
       let rel_path := rel_path_of w input_folder p in
       let array_name := to_c_identifier rel_path in
       let mime_type := guess_mime_type w p in
       (forall s, emit_entry Fc (entry_of w input_folder p) s
                  = (Ok tt, emit Fc (rows_of (entry_of w input_folder p)) s))
       /\ ((rel_path = "index.html"
            /\ rows_of (entry_of w input_folder p)
               = [table_row "/index.html" array_name mime_type;
                  table_row "/" array_name mime_type])
           \/ (rel_path <> "index.html"
               /\ rows_of (entry_of w input_folder p)
                  = [table_row ("/" ++ rel_path) array_name mime_type])).
Proof.
  intros Hdir Hc Hh Hread. split.
  - rewrite (main_ok w prog input_folder output_base Hdir Hc Hh Hread).
    cbn [files]. unfold c_writes. now rewrite flat_map_map.
  - intros p rel_path array_name mime_type. split.
    + intros s. apply emit_entry_rows.
    + unfold entry_of, rows_of.
      fold rel_path. fold array_name. fold mime_type.
      destruct (String.eqb_spec rel_path "index.html") as [E|E].
      * left. split; [exact E|]. now rewrite E.
      * right. now split.
Qed.

Lemma alias_row_iff_index_html_witness :
  files (main Demo.site "gen.py" ["site"; "out"])
  = [("out.c",
      (c_prologue
       ++ flat_map (file_c_writes Demo.site "site") (discovered Demo.site "site")
       ++ [table_open]
       ++ flat_map (fun p => rows_of (entry_of Demo.site "site" p))
            (discovered Demo.site "site")
       ++ c_epilogue)%list);
     ("out.h", h_writes Demo.site "site")]
  /\ forall p : string,
       let rel_path := rel_path_of Demo.site "site" p in
       let array_name := to_c_identifier rel_path in
       let mime_type := guess_mime_type Demo.site p in
       (forall s, emit_entry Fc (entry_of Demo.site "site" p) s
                  = (Ok tt, emit Fc (rows_of (entry_of Demo.site "site" p)) s))
       /\ ((rel_path = "index.html"
            /\ rows_of (entry_of Demo.site "site" p)
               = [table_row "/index.html" array_name mime_type;
                  table_row "/" array_name mime_type])
           \/ (rel_path <> "index.html"
               /\ rows_of (entry_of Demo.site "site" p)
                  = [table_row ("/" ++ rel_path) array_name mime_type])).
Proof.
  exact (alias_row_iff_index_html Demo.site "gen.py" "site" "out"
           eq_refl eq_refl eq_refl site_readable).
Defined.

(** C4, evaluated on a run with output base [out]: the definitions go to
    [out.c] and the declarations to [out.h], yet the second write of
    [out.c] includes [embedded_build.h] and [out.h] occurs nowhere in it. *)
Theorem include_ignores_output_base :
  let run := main Demo.site "folder_to_carray.py" ["site"; "out"] in
  let c_text := snd (nth 0 (files run) (EmptyString, [])) in
  map fst (files run) = ["out.c"; "out.h"]
  /\ exit_status run = Exit 0
  /\ nth 1 c_text EmptyString
     = "#include " ++ q ++ "embedded_build.h" ++ q ++ nl ++ nl
  /\ String.index 0 "out.h" (content c_text) = None.
Proof. vm_compute. repeat split. Qed.

(** C5: [to_c_identifier] keeps the length of its argument, puts [_] where
    the argument has [/], a backslash, [-] or [.] and the character of the
    argument everywhere else; none of the four occurs in the result. *)
Theorem to_c_identifier_sanitizes (path : string) :
  String.length (to_c_identifier path) = String.length path
  /\ (forall n, String.get n (to_c_identifier path)
                = option_map sanitized (String.get n path))
  /\ (forall n c, String.get n (to_c_identifier path) = Some c ->
        c <> "/"%char /\ c <> bslash /\ c <> "-"%char /\ c <> "."%char)
  /\ (forall c, sanitized c
                = if Ascii.eqb c "/" || Ascii.eqb c bslash
                     || Ascii.eqb c "-" || Ascii.eqb c "."
                  then "_"%char else c).
Proof.
  split; [|split; [|split]].
  - unfold to_c_identifier. now rewrite !length_replace.
  - apply get_to_c_identifier.
  - intros n c. rewrite get_to_c_identifier.
    destruct (String.get n path) as [c0|]; [|discriminate].
    cbn [option_map]. intros [= <-]. apply sanitized_clean.
  - reflexivity.
Qed.

(** C6: the literal of a file is one write per segment, the segments cut
    the bytes of the file in order, every segment but the last holds
    exactly 16 bytes, the last holds between 1 and 16, and each write is
    the four-character escapes of its bytes between two quotes and a single
    line end; for a file of no bytes there is no segment and the length
    constant is [0]. *)
Theorem literal_in_lines_of_16 (w : World) (file_path array_name : string)
    (f_c : handle) (data : list byte) (s : State) :
  read_bytes w file_path = Some data ->
  exists segs : list (list byte),
    file_to_c_array w file_path array_name f_c s
    = (Ok tt, emit f_c (array_def file_path array_name (map segment segs)
                          (str_int (length data))) s)
    /\ concat segs = data
    /\ (forall k, S k < length segs -> length (nth k segs []) = 16)
    /\ (forall seg, In seg segs ->
          1 <= length seg <= 16
          /\ String.length (segment seg) = 4 * length seg + 3
          /\ newlines (segment seg) = 1)
    /\ (data = [] -> segs = [] /\ str_int (length data) = "0").
Proof.
  intros Hread. exists (chunk16 [] data).
  split; [now apply file_to_c_array_ok|].
  split; [apply concat_chunk16|].
  split; [apply chunk16_full|].
  split.
  - intros seg Hin. split; [|split; [apply length_segment|apply newlines_segment]].
    apply (chunk16_bounds data [] seg); [simpl; lia | exact Hin].
  - intros ->. now split.
Qed.

Lemma literal_in_lines_of_16_witness :
  exists segs : list (list byte),
    file_to_c_array Demo.site "site/js/app-1.js" "js_app_1_js" Fc init
    = (Ok tt, emit Fc (array_def "site/js/app-1.js" "js_app_1_js"
                         (map segment segs)
                         (str_int (length (repeat xff 17)))) init)
    /\ concat segs = repeat xff 17
    /\ (forall k, S k < length segs -> length (nth k segs []) = 16)
    /\ (forall seg, In seg segs ->
          1 <= length seg <= 16
          /\ String.length (segment seg) = 4 * length seg + 3
          /\ newlines (segment seg) = 1)
    /\ (repeat xff 17 = [] -> segs = [] /\ str_int (length (repeat xff 17)) = "0").
Proof.
  exact (literal_in_lines_of_16 Demo.site "site/js/app-1.js" "js_app_1_js"
           Fc (repeat xff 17) init eq_refl).
Defined.

(** C7: with any number of arguments other than two the run prints the
    usage line, exits with status 1 and opens no file. *)
Theorem usage_on_wrong_argument_count (w : World) (prog : string)
    (args : list string) :
  length args <> 2 ->
  main w prog args
  = {| stdout := ["Usage: " ++ prog ++ " <input_folder> <output_base>" ++ nl];
       exit_status := Exit 1;
       files := [] |}.
Proof.
  intros H. unfold main. cbn [length nth].
  destruct (Nat.eqb_spec (S (length args)) 3) as [E|E]; [lia|].
  reflexivity.
Qed.

Lemma usage_on_wrong_argument_count_witness :
  main Demo.site "gen.py" ["site"; "out"; "extra"]
  = {| stdout := ["Usage: " ++ "gen.py" ++ " <input_folder> <output_base>" ++ nl];
       exit_status := Exit 1;
       files := [] |}.
Proof.
  apply (usage_on_wrong_argument_count Demo.site "gen.py"
           ["site"; "out"; "extra"]).
  discriminate.
Defined.

(** C8: when the input folder is not an existing directory the run prints
    the error line, exits with status 1 and opens no file. *)
Theorem missing_folder_is_reported (w : World)
    (prog input_folder output_base : string) :
  isdir w input_folder = false ->
  main w prog [input_folder; output_base]
  = {| stdout := ["Error: Folder '" ++ input_folder ++ "' not found" ++ nl];
       exit_status := Exit 1;
       files := [] |}.
Proof.
  intros H. unfold main. cbn [length Nat.eqb negb nth].
  now rewrite H.
Qed.

Lemma missing_folder_is_reported_witness :
  main Demo.site "gen.py" ["nowhere"; "out"]
  = {| stdout := ["Error: Folder '" ++ "nowhere" ++ "' not found" ++ nl];
       exit_status := Exit 1;
       files := [] |}.
Proof.
  exact (missing_folder_is_reported Demo.site "gen.py" "nowhere" "out" eq_refl).
Defined.

(** C9: two runs with the same arguments, in worlds that agree on the
    input folder, on its walk, on the discovered files (their joined and
    relative paths, bytes and guessed types) and on whether the two
    artifacts can be opened, end in the same outcome: same artifacts, byte
    for byte, same text printed, same status. *)
Theorem same_inputs_same_artifacts (w1 w2 : World) (prog : string)
    (args : list string) :
  isdir w1 (nth 0 args EmptyString) = isdir w2 (nth 0 args EmptyString) ->
  open_w w1 (nth 1 args EmptyString ++ ".c")
  = open_w w2 (nth 1 args EmptyString ++ ".c") ->
  open_w w1 (nth 1 args EmptyString ++ ".h")
  = open_w w2 (nth 1 args EmptyString ++ ".h") ->
  walk w1 (nth 0 args EmptyString) = walk w2 (nth 0 args EmptyString) ->
  (forall root dirs files file_name,
     In (root, dirs, files) (walk w1 (nth 0 args EmptyString)) ->
     In file_name files ->
     join w1 root file_name = join w2 root file_name
     /\ read_bytes w1 (join w1 root file_name)
        = read_bytes w2 (join w1 root file_name)
     /\ guess_type w1 (join w1 root file_name)
        = guess_type w2 (join w1 root file_name)
     /\ relpath w1 (join w1 root file_name) (nth 0 args EmptyString)
        = relpath w2 (join w1 root file_name) (nth 0 args EmptyString)) ->
  main w1 prog args = main w2 prog args.
Proof.
  intros Hdir Hc Hh Hwalk Hfiles. unfold main. cbn [length nth].
  destruct (negb (S (length args) =? 3)%nat); [reflexivity|].
  rewrite <- Hdir, <- Hc, <- Hh.
  now rewrite (generate_agree w1 w2 _ Hwalk Hfiles).
Qed.

Lemma site_agrees (root : string) (dirs files : list string)
    (file_name : string) :
  In (root, dirs, files) (walk Demo.site "site") ->
  In file_name files ->
  join Demo.site root file_name = join Demo.site_later root file_name
  /\ read_bytes Demo.site (join Demo.site root file_name)
     = read_bytes Demo.site_later (join Demo.site root file_name)
  /\ guess_type Demo.site (join Demo.site root file_name)
     = guess_type Demo.site_later (join Demo.site root file_name)
  /\ relpath Demo.site (join Demo.site root file_name) "site"
     = relpath Demo.site_later (join Demo.site root file_name) "site".
Proof.
  intros [[= <- <- <-]|[[= <- <- <-]|[]]].
  - intros [<-|[<-|[]]]; repeat split.
  - intros [<-|[]]; repeat split.
Defined.

Lemma same_inputs_same_artifacts_witness :
  main Demo.site "gen.py" ["site"; "out"]
  = main Demo.site_later "gen.py" ["site"; "out"].
Proof.
  exact (same_inputs_same_artifacts Demo.site Demo.site_later "gen.py"
           ["site"; "out"] eq_refl eq_refl eq_refl eq_refl site_agrees).
Defined.

(** C10: over a folder whose walk meets no file the run completes: it
    prints the success line, exits with status 0 and leaves both
    artifacts, the definitions holding the table with no row followed by
    the count expression. *)
Theorem empty_folder_run (w : World) (prog input_folder output_base : string) :
  isdir w input_folder = true ->
  open_w w (output_base ++ ".c") = true ->
  open_w w (output_base ++ ".h") = true ->
  (forall root dirs files,
     In (root, dirs, files) (walk w input_folder) -> files = []) ->
  main w prog [input_folder; output_base]
  = {| stdout := [success_message output_base];
       exit_status := Exit 0;
       files :=
         [(output_base ++ ".c", (c_prologue ++ [table_open] ++ c_epilogue)%list);
          (output_base ++ ".h", (h_prologue ++ h_epilogue)%list)] |}.
Proof.
  intros Hdir Hc Hh Hempty.
  pose proof (discovered_no_files w input_folder Hempty) as D.
  rewrite (main_ok w prog input_folder output_base Hdir Hc Hh).
  - unfold c_writes, h_writes. now rewrite D.
  - rewrite D. intros p [].
Qed.

Lemma empty_walk (root : string) (dirs files : list string) :
  In (root, dirs, files) (walk Demo.site "empty") -> files = [].
Proof.
  intros [[= _ _ <-]|[]]. reflexivity.
Defined.

Lemma empty_folder_run_witness :
  main Demo.site "gen.py" ["empty"; "out"]
  = {| stdout := [success_message "out"];
       exit_status := Exit 0;
       files :=
         [("out.c", (c_prologue ++ [table_open] ++ c_epilogue)%list);
          ("out.h", (h_prologue ++ h_epilogue)%list)] |}.
Proof.
  exact (empty_folder_run Demo.site "gen.py" "empty" "out"
           eq_refl eq_refl eq_refl empty_walk).
Defined.

(** ** Beyond the claims: the helpers *)

(** X1: the content type is never empty: it is the guessed type when
    there is a non-empty one and [application/octet-stream] otherwise. *)
Theorem guess_mime_type_never_empty (w : World) (file_path : string) :
  guess_mime_type w file_path <> EmptyString
  /\ (forall mime, guess_type w file_path = Some mime -> mime <> EmptyString ->
        guess_mime_type w file_path = mime)
  /\ (guess_type w file_path = None \/ guess_type w file_path = Some EmptyString ->
        guess_mime_type w file_path = "application/octet-stream").
Proof.
  unfold guess_mime_type. split; [|split].
  - destruct (guess_type w file_path) as [mime|]; [|discriminate].
    destruct (String.eqb_spec mime EmptyString); [discriminate | assumption].
  - intros mime -> Hne.
    destruct (String.eqb_spec mime EmptyString); [contradiction | reflexivity].
  - intros [->| ->]; reflexivity.
Qed.

Lemma sanitized_fixed (c : ascii) : reserved c = false -> sanitized c = c.
Proof. unfold sanitized, reserved. now intros ->. Qed.

Lemma sanitized_reserved (c : ascii) : reserved c = true -> sanitized c = "_"%char.
Proof. unfold sanitized, reserved. now intros ->. Qed.

Lemma reserved_sanitized (c : ascii) : reserved (sanitized c) = false.
Proof.
  destruct (sanitized_clean c) as (H1 & H2 & H3 & H4). unfold reserved.
  apply Ascii.eqb_neq in H1, H2, H3, H4. now rewrite H1, H2, H3, H4.
Qed.

Lemma to_c_identifier_cons (c : ascii) (s : string) :
  to_c_identifier (String c s) = String (sanitized c) (to_c_identifier s).
Proof.
  unfold to_c_identifier. cbn [replace]. f_equal. apply sanitize_steps.
Qed.

(** X2: sanitizing twice is sanitizing once. *)
Theorem to_c_identifier_idempotent (path : string) :
  to_c_identifier (to_c_identifier path) = to_c_identifier path.
Proof.
  induction path as [|c path IH]; [reflexivity|].
  rewrite !to_c_identifier_cons, IH. f_equal.
  apply sanitized_fixed, reserved_sanitized.
Qed.

(** X3: [to_c_identifier] leaves a path as it is exactly when the path
    holds none of [/], backslash, [-] and [.]. *)
Theorem to_c_identifier_fixed_iff (path : string) :
  to_c_identifier path = path
  <-> forall n c, String.get n path = Some c -> reserved c = false.
Proof.
  induction path as [|c path IH].
  - split; [intros _ n c' H; destruct n; discriminate H | reflexivity].
  - rewrite to_c_identifier_cons. split.
    + intros [= Hc Hs] n c' Hget. destruct n as [|n].
      * cbn in Hget. injection Hget as <-.
        rewrite <- Hc. apply reserved_sanitized.
      * cbn in Hget. exact (proj1 IH Hs n c' Hget).
    + intros H. f_equal.
      * apply sanitized_fixed. exact (H 0 c eq_refl).
      * apply IH. intros n c' Hget. exact (H (S n) c' Hget).
Qed.

Lemma sanitized_collapses (c : ascii) :
  collapses c = true -> sanitized c = "_"%char.
Proof.
  unfold collapses. intros H. apply orb_true_iff in H as [H|H].
  - now apply sanitized_reserved.
  - apply Ascii.eqb_eq in H. now subst.
Qed.

Lemma sanitized_eq_iff (c d : ascii) :
  sanitized c = sanitized d
  <-> c = d \/ (collapses c = true /\ collapses d = true).
Proof.
  split.
  - intros H. unfold collapses.
    destruct (reserved c) eqn:Rc; destruct (reserved d) eqn:Rd.
    + right. now split.
    + rewrite (sanitized_reserved c Rc), (sanitized_fixed d Rd) in H.
      subst d. right. now split.
    + rewrite (sanitized_fixed c Rc), (sanitized_reserved d Rd) in H.
      subst c. right. now split.
    + rewrite (sanitized_fixed c Rc), (sanitized_fixed d Rd) in H. now left.
  - intros [->|[Hc Hd]]; [reflexivity|].
    now rewrite (sanitized_collapses c Hc), (sanitized_collapses d Hd).
Qed.

(** X4: two paths get the same symbol exactly when they have the same
    length and, position by position, the same character or two
    characters among [/], backslash, [-], [.] and [_]. *)
Theorem to_c_identifier_collision_iff (a b : string) :
  to_c_identifier a = to_c_identifier b
  <-> String.length a = String.length b
      /\ forall n c d, String.get n a = Some c -> String.get n b = Some d ->
           c = d \/ (collapses c = true /\ collapses d = true).
Proof.
  revert b. induction a as [|c a IH]; intros [|d b].
  - split; [intros _; split; [reflexivity|] | reflexivity].
    intros n c d H. destruct n; discriminate H.
  - rewrite to_c_identifier_cons. split; [discriminate|].
    intros [H _]. discriminate H.
  - rewrite to_c_identifier_cons. split; [discriminate|].
    intros [H _]. discriminate H.
  - rewrite !to_c_identifier_cons. split.
    + intros [= Hc Hs]. apply IH in Hs as [Hlen Hall]. split.
      * cbn [String.length]. now rewrite Hlen.
      * intros n c' d' Ha Hb. destruct n as [|n].
        -- cbn in Ha, Hb. injection Ha as <-. injection Hb as <-.
           now apply sanitized_eq_iff.
        -- cbn in Ha, Hb. exact (Hall n c' d' Ha Hb).
    + intros [Hlen Hall]. f_equal.
      * apply sanitized_eq_iff. exact (Hall 0 c d eq_refl eq_refl).
      * apply IH. split.
        -- cbn [String.length] in Hlen. now injection Hlen.
        -- intros n c' d' Ha Hb. exact (Hall (S n) c' d' Ha Hb).
Qed.

(** X5: the relative path recorded for a file holds no backslash: where
    [relpath] gave one there is a [/], and every other character is as
    [relpath] gave it. *)
Theorem rel_path_has_no_backslash (w : World) (input_folder full_path : string) :
  (forall n, String.get n (rel_path_of w input_folder full_path) <> Some bslash)
  /\ String.length (rel_path_of w input_folder full_path)
     = String.length (relpath w full_path input_folder)
  /\ (forall n c, String.get n (relpath w full_path input_folder) = Some c ->
        String.get n (rel_path_of w input_folder full_path)
        = Some (if Ascii.eqb c bslash then "/"%char else c)).
Proof.
  unfold rel_path_of. split; [|split].
  - intros n. rewrite get_replace.
    destruct (String.get n (relpath w full_path input_folder)) as [c|];
      [|discriminate].
    cbn [option_map]. destruct (Ascii.eqb_spec c bslash) as [E|E].
    + discriminate.
    + congruence.
  - apply length_replace.
  - intros n c H. now rewrite get_replace, H.
Qed.

Lemma length_chunk16 (data : list byte) :
  forall pend, length pend < 16 ->
    length (chunk16 pend data) = (length pend + length data + 15) / 16.
Proof.
  induction data as [|b data IH]; intros pend Hp; cbn [chunk16].
  - destruct pend as [|x pend].
    + reflexivity.
    + cbn [length] in *. rewrite Nat.add_0_r.
      replace (S (length pend) + 15) with (1 * 16 + length pend) by lia.
      rewrite Nat.div_add_l, Nat.div_small by lia. reflexivity.
  - destruct (Nat.eqb_spec (length (pend ++ [b])) 16) as [H|H];
      rewrite length_app in H; cbn [length] in H |- *.
    + rewrite IH by (cbn; lia). cbn [length].
      replace (length pend + S (length data) + 15)
        with (1 * 16 + (0 + length data + 15)) by lia.
      now rewrite Nat.div_add_l by lia.
    + rewrite IH by (rewrite length_app; cbn; lia).
      rewrite length_app. cbn [length]. f_equal. lia.
Qed.

(** X6: the literal of a file of [n] bytes takes [(n + 15) / 16] writes,
    so the whole array takes four more. *)
Theorem literal_line_count (w : World) (file_path array_name : string)
    (f_c : handle) (data : list byte) (s : State) :
  read_bytes w file_path = Some data ->
  exists (lit : list string) (len : string),
    file_to_c_array w file_path array_name f_c s
    = (Ok tt, emit f_c (array_def file_path array_name lit len) s)
    /\ length lit = (length data + 15) / 16
    /\ length (array_def file_path array_name lit len)
       = 4 + (length data + 15) / 16.
Proof.
  intros Hread.
  exists (map segment (chunk16 [] data)), (str_int (length data)).
  split; [now apply file_to_c_array_ok|].
  assert (L : length (map segment (chunk16 [] data)) = (length data + 15) / 16).
  { rewrite length_map, length_chunk16 by (cbn; lia). reflexivity. }
  split; [exact L|].
  unfold array_def. cbn [length]. rewrite length_app, L. cbn [length]. lia.
Qed.

Lemma literal_line_count_witness :
  exists (lit : list string) (len : string),
    file_to_c_array Demo.site "site/js/app-1.js" "js_app_1_js" Fc init
    = (Ok tt, emit Fc (array_def "site/js/app-1.js" "js_app_1_js" lit len) init)
    /\ length lit = (length (repeat xff 17) + 15) / 16
    /\ length (array_def "site/js/app-1.js" "js_app_1_js" lit len)
       = 4 + (length (repeat xff 17) + 15) / 16.
Proof.
  exact (literal_line_count Demo.site "site/js/app-1.js" "js_app_1_js"
           Fc (repeat xff 17) init eq_refl).
Defined.

(** X7: a byte is formatted as two characters, each a digit or a letter
    from [a] to [f], whose hexadecimal values are the high and the low half
    of the byte. *)
Theorem format_02x_two_lower_hex_digits (b : byte) :
  exists (h l : ascii) (vh vl : nat),
    format_02x b = String h (String l EmptyString)
    /\ lower_hex h = true /\ lower_hex l = true
    /\ hex_value h = Some vh /\ hex_value l = Some vl
    /\ 16 * vh + vl = to_nat b.
Proof.
  exists (hex_digit (to_nat b / 16)), (hex_digit (to_nat b mod 16)),
         (to_nat b / 16), (to_nat b mod 16).
  pose proof (to_nat_bounded b) as B.
  pose proof (Nat.mod_upper_bound (to_nat b) 16 ltac:(lia)) as Hm.
  assert (Hd : to_nat b / 16 < 16) by (apply Nat.Div0.div_lt_upper_bound; lia).
  assert (Hl : forall n, n < 16 -> lower_hex (hex_digit n) = true).
  { intros n Hn. do 16 (destruct n as [|n]; [reflexivity|]). lia. }
  split; [reflexivity|].
  split; [now apply Hl|]. split; [now apply Hl|].
  split; [now apply hex_value_digit|]. split; [now apply hex_value_digit|].
  symmetry. apply Nat.div_mod_eq.
Qed.

(** ** Beyond the claims: aborted and completed runs *)

Lemma for_each_app {A} (xs ys : list A) (body : A -> M unit) (s : State) :
  for_each (xs ++ ys) body s
  = (for_each xs body ;; for_each ys body) s.
Proof.
  revert s. induction xs as [|x xs IH]; intros s; cbn [app for_each].
  - reflexivity.
  - unfold bind in IH |- *.
    destruct (body x s) as [[[]|e] s']; [apply IH | reflexivity].
Qed.

Lemma for_each_map {A B} (f : A -> B) (l : list A) (body : B -> M unit)
    (s : State) :
  for_each (map f l) body s = for_each l (fun x => body (f x)) s.
Proof.
  revert s. induction l as [|x l IH]; intros s; cbn [map for_each];
    [reflexivity|].
  unfold bind. destruct (body (f x) s) as [[[]|e] s']; [apply IH | reflexivity].
Qed.

Lemma for_each_flat_map {A B} (g : A -> list B) (l : list A)
    (body : B -> M unit) (s : State) :
  for_each (flat_map g l) body s
  = for_each l (fun x => for_each (g x) body) s.
Proof.
  revert s. induction l as [|x l IH]; intros s; cbn [flat_map for_each];
    [reflexivity|].
  rewrite for_each_app. unfold bind.
  destruct (for_each (g x) body s) as [[[]|e] s']; [apply IH | reflexivity].
Qed.

(** The nested loops visit the discovered paths in order. *)
Lemma walk_loop_flat (w : World) (input_folder : string) (s : State) :
  for_each (walk w input_folder)
    (fun '(root, _, files) =>
       for_each files (convert_file w input_folder root Fc Fh)) s
  = for_each (discovered w input_folder)
      (convert_path w input_folder Fc Fh) s.
Proof.
  unfold discovered. rewrite for_each_flat_map.
  apply for_each_ext. intros [[root dirs] files] _ s'.
  now rewrite for_each_map.
Qed.

Lemma convert_path_ok (w : World) (input_folder full_path : string)
    (s : State) :
  read_bytes w full_path <> None ->
  convert_path w input_folder Fc Fh full_path s
  = (Ok tt, extend s (file_c_writes w input_folder full_path)
                     (file_h_writes w input_folder full_path)
                     [entry_of w input_folder full_path]).
Proof.
  intros Hread. apply data_of_read in Hread.
  unfold convert_path. unfold bind at 1.
  rewrite (file_to_c_array_ok _ _ _ _ _ _ Hread).
  rewrite !bind_write.
  unfold file_c_writes, file_h_writes, entry_of, rel_path_of.
  state_eq.
Qed.

Lemma convert_path_fails (w : World) (input_folder full_path : string)
    (s : State) :
  read_bytes w full_path = None ->
  convert_path w input_folder Fc Fh full_path s
  = (Raise (OSError full_path), s).
Proof.
  intros Hread. unfold convert_path. unfold bind at 1.
  now rewrite (file_to_c_array_fails _ _ _ _ _ Hread).
Qed.

Lemma paths_loop_aborts (w : World) (input_folder : string)
    (before after : list string) (p : string) (s : State) :
  (forall x, In x before -> read_bytes w x <> None) ->
  read_bytes w p = None ->
  for_each (before ++ p :: after) (convert_path w input_folder Fc Fh) s
  = (Raise (OSError p),
     extend s (flat_map (file_c_writes w input_folder) before)
              (flat_map (file_h_writes w input_folder) before)
              (map (entry_of w input_folder) before)).
Proof.
  intros Hbefore Hp. rewrite for_each_app. unfold bind at 1.
  rewrite (for_each_extend before _ (file_c_writes w input_folder)
             (file_h_writes w input_folder)
             (fun x => [entry_of w input_folder x])).
  - cbn [for_each]. unfold bind.
    rewrite (convert_path_fails _ _ _ _ Hp).
    now rewrite flat_map_singleton.
  - intros x Hx s'. now apply convert_path_ok, Hbefore.
Qed.

Lemma generate_aborts (w : World) (input_folder : string)
    (before after : list string) (p : string) :
  discovered w input_folder = (before ++ p :: after)%list ->
  (forall x, In x before -> read_bytes w x <> None) ->
  read_bytes w p = None ->
  generate w input_folder Fc Fh init
  = (Raise (OSError p),
     {| out_c := (c_prologue ++ flat_map (file_c_writes w input_folder) before)%list;
        out_h := (h_prologue ++ flat_map (file_h_writes w input_folder) before)%list;
        file_entries := map (entry_of w input_folder) before |}).
Proof.
  intros Hd Hbefore Hp. unfold generate.
  rewrite !bind_write. unfold bind at 1.
  rewrite walk_loop_flat, Hd.
  rewrite !emit_Fc, !emit_Fh, !extend_extend.
  rewrite (paths_loop_aborts w input_folder before after p _ Hbefore Hp).
  rewrite extend_extend. unfold extend, init, c_prologue, h_prologue.
  cbn [out_c out_h file_entries app]. reflexivity.
Qed.

Lemma main_aborts (w : World) (prog input_folder output_base : string)
    (before after : list string) (p : string) :
  isdir w input_folder = true ->
  open_w w (output_base ++ ".c") = true ->
  open_w w (output_base ++ ".h") = true ->
  discovered w input_folder = (before ++ p :: after)%list ->
  (forall x, In x before -> read_bytes w x <> None) ->
  read_bytes w p = None ->
  main w prog [input_folder; output_base]
  = {| stdout := [];
       exit_status := Uncaught (OSError p);
       files :=
         [(output_base ++ ".c",
           (c_prologue ++ flat_map (file_c_writes w input_folder) before)%list);
          (output_base ++ ".h",
           (h_prologue ++ flat_map (file_h_writes w input_folder) before)%list)] |}.
Proof.
  intros Hdir Hc Hh Hd Hbefore Hp. unfold main.
  cbn [length Nat.eqb negb nth].
  rewrite Hdir, Hc, Hh. cbn [negb].
  now rewrite (generate_aborts w input_folder before after p Hd Hbefore Hp).
Qed.

(** X8: when a discovered file cannot be read and those before it can, the
    run ends on that file's error without printing anything; the two
    artifacts are left with the prologues and what the files before it
    contributed, and no table. *)
Theorem unreadable_file_aborts_run (w : World)
    (prog input_folder output_base : string)
    (before after : list string) (p : string) :
  isdir w input_folder = true ->
  open_w w (output_base ++ ".c") = true ->
  open_w w (output_base ++ ".h") = true ->
  discovered w input_folder = (before ++ p :: after)%list ->
  (forall x, In x before -> read_bytes w x <> None) ->
  read_bytes w p = None ->
  main w prog [input_folder; output_base]
  = {| stdout := [];
       exit_status := Uncaught (OSError p);
       files :=
         [(output_base ++ ".c",
           (c_prologue ++ flat_map (file_c_writes w input_folder) before)%list);
          (output_base ++ ".h",
           (h_prologue ++ flat_map (file_h_writes w input_folder) before)%list)] |}.
Proof. exact (main_aborts w prog input_folder output_base before after p). Qed.

Lemma locked_before (x : string) :
  In x ["site/index.html"] -> read_bytes Locked.site x <> None.
Proof.
  intros [<-|[]]. discriminate.
Defined.

Lemma unreadable_file_aborts_run_witness :
  main Locked.site "gen.py" ["site"; "out"]
  = {| stdout := [];
       exit_status := Uncaught (OSError "site/style.css");
       files :=
         [("out.c",
           (c_prologue
            ++ flat_map (file_c_writes Locked.site "site") ["site/index.html"])%list);
          ("out.h",
           (h_prologue
            ++ flat_map (file_h_writes Locked.site "site") ["site/index.html"])%list)] |}.
Proof.
  exact (unreadable_file_aborts_run Locked.site "gen.py" "site" "out"
           ["site/index.html"] ["site/js/app-1.js"] "site/style.css"
           eq_refl eq_refl eq_refl eq_refl locked_before eq_refl).
Defined.




(** X11: in a completed run the declarations artifact is the struct
    prologue, then for each discovered file, in discovery order, the two
    extern lines of its symbol, then the two extern lines of the table: nine
    writes and two per file. *)
Theorem declarations_artifact (w : World)
    (prog input_folder output_base : string) :
  isdir w input_folder = true ->
  open_w w (output_base ++ ".c") = true ->
  open_w w (output_base ++ ".h") = true ->
  (forall p, In p (discovered w input_folder) -> read_bytes w p <> None) ->
  exists c_text h_text : list string,
    files (main w prog [input_folder; output_base])
    = [(output_base ++ ".c", c_text); (output_base ++ ".h", h_text)]
    /\ h_text
       = app h_prologue
           (app (flat_map
                   (fun p =>
                      let array_name :=
                        to_c_identifier (rel_path_of w input_folder p) in
                      ["extern const unsigned char " ++ array_name ++ "[];" ++ nl;
                       "extern const unsigned int " ++ array_name ++ "_len;" ++ nl])
                   (discovered w input_folder))
              h_epilogue)
    /\ length h_text = 9 + 2 * length (discovered w input_folder).
Proof.
  intros Hdir Hc Hh Hread.
  rewrite (main_ok w prog input_folder output_base Hdir Hc Hh Hread).
  exists (c_writes w input_folder), (h_writes w input_folder).
  split; [reflexivity|]. split; [reflexivity|].
  unfold h_writes. rewrite !length_app.
  assert (L : forall l, length (flat_map (file_h_writes w input_folder) l)
                        = 2 * length l).
  { induction l as [|x l IH]; [reflexivity|].
    cbn [flat_map]. rewrite length_app, IH. cbn [length file_h_writes]. lia. }
  rewrite L. cbn [length h_prologue h_epilogue]. lia.
Qed.

Lemma declarations_artifact_witness :
  exists c_text h_text : list string,
    files (main Demo.site "gen.py" ["site"; "out"])
    = [("out.c", c_text); ("out.h", h_text)]
    /\ h_text
       = app h_prologue
           (app (flat_map
                   (fun p =>
                      let array_name :=
                        to_c_identifier (rel_path_of Demo.site "site" p) in
                      ["extern const unsigned char " ++ array_name ++ "[];" ++ nl;
                       "extern const unsigned int " ++ array_name ++ "_len;" ++ nl])
                   (discovered Demo.site "site"))
              h_epilogue)
    /\ length h_text = 9 + 2 * length (discovered Demo.site "site").
Proof.
  exact (declarations_artifact Demo.site "gen.py" "site" "out"
           eq_refl eq_refl eq_refl site_readable).
Defined.

(** X12: in a completed run every discovered file has, under one and the
    same symbol, its array and its length in the definitions, its two
    extern lines in the declarations and its row in the table. *)
Theorem symbol_defined_declared_and_listed (w : World)
    (prog input_folder output_base p : string) :
  isdir w input_folder = true ->
  open_w w (output_base ++ ".c") = true ->
  open_w w (output_base ++ ".h") = true ->
  (forall x, In x (discovered w input_folder) -> read_bytes w x <> None) ->
  In p (discovered w input_folder) ->
  exists (c_text h_text : list string) (data : list byte),
    files (main w prog [input_folder; output_base])
    = [(output_base ++ ".c", c_text); (output_base ++ ".h", h_text)]
    /\ read_bytes w p = Some data
    /\ let rel_path := rel_path_of w input_folder p in
       let array_name := to_c_identifier rel_path in
       In ("const unsigned char " ++ array_name ++ "[] = " ++ nl) c_text
       /\ In ("const unsigned int " ++ array_name ++ "_len = "
              ++ str_int (length data) ++ ";" ++ nl ++ nl) c_text
       /\ In ("extern const unsigned char " ++ array_name ++ "[];" ++ nl) h_text
       /\ In ("extern const unsigned int " ++ array_name ++ "_len;" ++ nl) h_text
       /\ In (table_row ("/" ++ rel_path) array_name (guess_mime_type w p)) c_text.
Proof.
  intros Hdir Hc Hh Hread Hp.
  rewrite (main_ok w prog input_folder output_base Hdir Hc Hh Hread).
  exists (c_writes w input_folder), (h_writes w input_folder), (data_of w p).
  split; [reflexivity|].
  split; [apply data_of_read, Hread, Hp|].
  cbv zeta. unfold c_writes, h_writes.
  assert (Hc1 : forall x, In x (file_c_writes w input_folder p) ->
                 In x (flat_map (file_c_writes w input_folder)
                         (discovered w input_folder))).
  { intros x Hx. apply in_flat_map. now exists p. }
  assert (Hh1 : forall x, In x (file_h_writes w input_folder p) ->
                 In x (flat_map (file_h_writes w input_folder)
                         (discovered w input_folder))).
  { intros x Hx. apply in_flat_map. now exists p. }
  repeat split.
  - apply in_or_app. right. apply in_or_app. left. apply Hc1.
    unfold file_c_writes, array_def. right. now left.
  - apply in_or_app. right. apply in_or_app. left. apply Hc1.
    unfold file_c_writes, array_def. right. right.
    apply in_or_app. right. right. now left.
  - apply in_or_app. right. apply in_or_app. left. apply Hh1. now left.
  - apply in_or_app. right. apply in_or_app. left. apply Hh1. right. now left.
  - apply in_or_app. right. apply in_or_app. right.
    apply in_or_app. right. apply in_or_app. left.
    apply in_flat_map. exists (entry_of w input_folder p).
    split; [now apply in_map|]. now left.
Qed.

Lemma symbol_defined_declared_and_listed_witness :
  exists (c_text h_text : list string) (data : list byte),
    files (main Demo.site "gen.py" ["site"; "out"])
    = [("out.c", c_text); ("out.h", h_text)]
    /\ read_bytes Demo.site "site/js/app-1.js" = Some data
    /\ let rel_path := rel_path_of Demo.site "site" "site/js/app-1.js" in
       let array_name := to_c_identifier rel_path in
       In ("const unsigned char " ++ array_name ++ "[] = " ++ nl) c_text
       /\ In ("const unsigned int " ++ array_name ++ "_len = "
              ++ str_int (length data) ++ ";" ++ nl ++ nl) c_text
       /\ In ("extern const unsigned char " ++ array_name ++ "[];" ++ nl) h_text
       /\ In ("extern const unsigned int " ++ array_name ++ "_len;" ++ nl) h_text
       /\ In (table_row ("/" ++ rel_path) array_name
                (guess_mime_type Demo.site "site/js/app-1.js")) c_text.
Proof.
  apply (symbol_defined_declared_and_listed Demo.site "gen.py" "site" "out"
           "site/js/app-1.js" eq_refl eq_refl eq_refl site_readable).
  right. right. left. reflexivity.
Defined.


